(** * Custom guild commands of 3pseatBot: [threepseat/cogs/commands.py]

    The cog [Commands] keeps two tables in step: the persisted store of
    [GuildDatabase], keyed by guild and command name, and the command table
    of the bot it is loaded into, keyed by command name only.  The methods of
    the cog are embedded below as functions on an explicit cog state; the
    coroutines [add], [remove] and the handler [_command] run without
    interleaving, so each is one state transformer that may raise. *)

From stdpp Require Import gmap strings list fin_maps.

Local Open Scope string_scope.

(** ** Exceptions and the monad of fallible steps *)

(** The fault of the command framework that the cog can meet: registering
    a name that is taken. *)
Inductive exn : Type :=
  | CommandRegistrationError (name : string).

Inductive result (A : Type) : Type :=
  | Ok (a : A)
  | Raise (e : exn).

Arguments Ok {A} a.
Arguments Raise {A} e.

#[global] Instance result_ret : MRet result := λ A a, Ok a.
#[global] Instance result_bind : MBind result :=
  λ A B k r, match r with Ok a => k a | Raise e => Raise e end.

(** [for x in xs: body], where the body may raise. *)
Fixpoint for_each {A S : Type} (body : S → A → result S) (xs : list A) (s : S)
  : result S :=
  match xs with
  | [] => Ok s
  | x :: xs' => s' ← body s x; for_each body xs' s'
  end.

(** ** Discord objects, as far as the cog looks at them *)

Definition Guild := N.
Definition Channel := N.

(** Modelled from the spec: a [discord.Member] is the acting identity; the
    cog reads its [mention] string, and [threepseat.utils.is_admin] (not in
    the sources) answers whether the actor holds the guild-admin role. *)
Record Member : Type := {
  member_id : N;
  mention : string;
  guild_administrator : bool
}.

Definition is_admin (member : Member) : bool := guild_administrator member.

(** [commands.Context]: [ctx.message.author], [ctx.guild], [ctx.channel]. *)
Record Context : Type := {
  author : Member;
  guild : Guild;
  channel : Channel
}.

(** The coroutine [_command] closes over [self], [name] and the [text]
    parameter of the enclosing [make_command]; [self] is the live cog, read
    when the handler runs. *)
Record Closure : Type := {
  free_name : string;
  free_text : string
}.

(** [commands.Command(_command, name=name, cog=self)]. *)
Record Command : Type := {
  callback : Closure;
  name : string
}.

(** ** The bot *)

Module Bot.

(** Modelled from the spec: [threepseat.bot.Bot] is not in the sources.  It
    is the host dispatcher, a [discord.ext.commands.Bot]: a command table
    keyed by command name with at most one handler per name, a
    [command_prefix], the configured bot-level administrators, and the
    notices sent so far, each with the channel it went to. *)
Record t : Type := {
  command_prefix : string;
  bot_admins : list N;
  all_commands : gmap string Command;
  sent : list (Channel * string)
}.

Definition with_commands (cmds : gmap string Command) (b : t) : t :=
  {| command_prefix := command_prefix b;
     bot_admins := bot_admins b;
     all_commands := cmds;
     sent := sent b |}.

(** Modelled from the spec: [is_bot_admin] holds of the configured
    bot-level administrators. *)
Definition is_bot_admin (b : t) (member : Member) : bool :=
  bool_decide (member_id member ∈ bot_admins b).

(** Modelled from the spec: [message_guild] sends exactly one notice to
    the given channel. *)
Definition message_guild (message : string) (ch : Channel) (b : t) : t :=
  {| command_prefix := command_prefix b;
     bot_admins := bot_admins b;
     all_commands := all_commands b;
     sent := sent b ++ [(ch, message)] |}.

(** Modelled from the spec: deregistering a handler is a no-op if the name
    is absent. *)
Definition remove_command (name : string) (b : t) : t :=
  with_commands (delete name (all_commands b)) b.

(** Modelled from the spec: the dispatcher holds at most one handler per
    name.  The framework keeps that by refusing a name that is already
    registered, which is why [Commands.add] removes the name first (its
    comment: remove first in case this command already exists). *)
Definition add_command (command : Command) (b : t) : result t :=
  match all_commands b !! name command with
  | Some _ => Raise (CommandRegistrationError (name command))
  | None => Ok (with_commands (<[name command := command]> (all_commands b)) b)
  end.

End Bot.

(** ** The persisted store *)

Module GuildDatabase.

(** Modelled from the spec: [threepseat.utils.GuildDatabase] is not in the
    sources.  It persists a mapping from guild identity to a mapping from
    command name to command text, and exposes get, set, clear and
    enumerate-all. *)
Abbreviation t := (gmap Guild (gmap string string)).

(** enumerate-all: every guild's table. *)
Definition tables (db : t) : gmap Guild (gmap string string) := db.

(** get: the text stored under [(guild, key)], [None] when there is none. *)
Definition value (db : t) (g : Guild) (key : string) : option string :=
  db !! g ≫= λ table, table !! key.

(** set: create or overwrite the entry [(guild, key)]. *)
Definition set (db : t) (g : Guild) (key val : string) : t :=
  <[g := <[key := val]> (default ∅ (db !! g))]> db.

(** clear: drop the entry [(guild, key)]. *)
Definition clear (db : t) (g : Guild) (key : string) : t :=
  alter (delete key) g db.

End GuildDatabase.

(** ** The cog *)

Module Commands.

Record t : Type := {
  bot : Bot.t;
  guild_admin_permission : bool;
  bot_admin_permission : bool;
  everyone_permission : bool;
  db : GuildDatabase.t
}.

(** Assignments through [self.bot] and [self.db]. *)
Definition with_bot (b : Bot.t) (self : t) : t :=
  {| bot := b;
     guild_admin_permission := guild_admin_permission self;
     bot_admin_permission := bot_admin_permission self;
     everyone_permission := everyone_permission self;
     db := db self |}.

Definition with_db (d : GuildDatabase.t) (self : t) : t :=
  {| bot := bot self;
     guild_admin_permission := guild_admin_permission self;
     bot_admin_permission := bot_admin_permission self;
     everyone_permission := everyone_permission self;
     db := d |}.

Definition _get_command (self : t) (g : Guild) (name : string)
  : option string :=
  GuildDatabase.value (db self) g name.

Definition _remove_command (self : t) (g : Guild) (name : string) : t :=
  with_db (GuildDatabase.clear (db self) g name) self.

Definition _set_command (self : t) (g : Guild) (name text : string) : t :=
  with_db (GuildDatabase.set (db self) g name text) self.

(** The body of the handler built by [make_command], run on the live
    cog. *)
Definition _command (env : Closure) (self : t) (_ctx : Context) : t :=
  match _get_command self (guild _ctx) (free_name env) with
  | None =>
      with_bot
        (Bot.message_guild "this command is not available in this guild"
           (channel _ctx) (bot self)) self
  | Some _text =>
      with_bot (Bot.message_guild _text (channel _ctx) (bot self)) self
  end.

(** The name a command is registered under: [commands.Command] takes
    [name or func.__name__], and the function here is [_command]. *)
Definition command_name (name : string) : string :=
  if decide (name = "") then "_command" else name.

Definition make_command (name text : string) : Command :=
  {| callback := {| free_name := name; free_text := text |};
     name := command_name name |}.

Definition has_permission (self : t) (member : Member) : bool :=
  if everyone_permission self then true
  else if is_admin member || Bot.is_bot_admin (bot self) member then true
  else false.

Definition add (self : t) (ctx : Context) (name text : string) : result t :=
  if negb (has_permission self (author ctx)) then
    Ok (with_bot
          (Bot.message_guild
             (mention (author ctx)
                ++ ", you do not have permission to add a command")
             (channel ctx) (bot self)) self)
  else
    (* Save to database *)
    let self := _set_command self (guild ctx) name text in
    (* Remove first in case this command already exists *)
    let self := with_bot (Bot.remove_command name (bot self)) self in
    (* Register with bot *)
    b ← Bot.add_command (make_command name text) (bot self);
    let self := with_bot b self in
    Ok (with_bot
          (Bot.message_guild
             ("added command " ++ Bot.command_prefix (bot self) ++ name)
             (channel ctx) (bot self)) self).

Definition remove (self : t) (ctx : Context) (name : string) : result t :=
  if negb (has_permission self (author ctx)) then
    Ok (with_bot
          (Bot.message_guild
             (mention (author ctx)
                ++ ", you do not have permission to remove a command")
             (channel ctx) (bot self)) self)
  else
    (* Remove from bot *)
    let self := with_bot (Bot.remove_command name (bot self)) self in
    (* Remove from database *)
    let self := _remove_command self (guild ctx) name in
    Ok (with_bot
          (Bot.message_guild
             ("removed command " ++ Bot.command_prefix (bot self) ++ name)
             (channel ctx) (bot self)) self).

(** The body of the startup loops,
    [self.bot.add_command(self.make_command(name, text))], and the inner
    loop [for name, text in table.items()]. *)
Definition register_entry (b : Bot.t) (entry : string * string)
  : result Bot.t :=
  let '(name, text) := entry in
  Bot.add_command (make_command name text) b.

Definition register_table (b : Bot.t) (table : gmap string string)
  : result Bot.t :=
  for_each register_entry (map_to_list table) b.

(** [commands_file] stands for the store that [GuildDatabase] opens at that
    path.  The outer loop is [for table in tables.values()]; the order in
    which a dictionary is enumerated is the map's here, and the properties
    of startup below do not depend on it. *)
Definition __init__ (bot0 : Bot.t) (commands_file : GuildDatabase.t)
    (guild_admin_permission0 bot_admin_permission0 everyone_permission0 : bool)
  : result t :=
  let tables := GuildDatabase.tables commands_file in
  b ← for_each register_table (map_to_list tables).*2 bot0;
  Ok {| bot := b;
        guild_admin_permission := guild_admin_permission0;
        bot_admin_permission := bot_admin_permission0;
        everyone_permission := everyone_permission0;
        db := commands_file |}.

(** Modelled from the spec: [invoke] is the dispatcher answering a typed
    command name: it runs the handler installed under that name, in the
    guild and channel of the invocation.  Where no handler is installed the
    outcome is the one the spec gives for every miss: not an exception but
    a normal branch, which reports the fixed notice. *)
Definition invoke (self : t) (ctx : Context) (name : string) : result t :=
  match Bot.all_commands (bot self) !! name with
  | Some command => Ok (_command (callback command) self ctx)
  | None =>
      Ok (with_bot
            (Bot.message_guild "this command is not available in this guild"
               (channel ctx) (bot self)) self)
  end.

(** The two subcommands of the group [commands]: the framework parses
    [name] and the rest of the line as [text] and hands them over. *)
Definition _add (self : t) (ctx : Context) (name text : string) : result t :=
  add self ctx name text.

Definition _remove (self : t) (ctx : Context) (name : string) : result t :=
  remove self ctx name.

End Commands.

Import Commands.

(** ** A small deployment, for concrete runs *)

Module Fixture.

Definition bot0 : Bot.t :=
  {| Bot.command_prefix := "?";
     Bot.bot_admins := [7%N];
     Bot.all_commands := ∅;
     Bot.sent := [] |}.

(** The cog as constructed with the default flags on an empty store. *)
Definition cog0 : Commands.t :=
  {| bot := bot0;
     guild_admin_permission := true;
     bot_admin_permission := true;
     everyone_permission := false;
     db := ∅ |}.

(** The same cog constructed with both admin flags switched off. *)
Definition cog_flags_off : Commands.t :=
  {| bot := bot0;
     guild_admin_permission := false;
     bot_admin_permission := false;
     everyone_permission := false;
     db := ∅ |}.

(** A bot-level administrator, a guild administrator and a plain member. *)
Definition owner : Member :=
  {| member_id := 7; mention := "<@7>"; guild_administrator := false |}.
Definition moderator : Member :=
  {| member_id := 8; mention := "<@8>"; guild_administrator := true |}.
Definition visitor : Member :=
  {| member_id := 9; mention := "<@9>"; guild_administrator := false |}.

Definition guildA : Guild := 1%N.
Definition guildB : Guild := 2%N.

Definition in_guild (member : Member) (g : Guild) : Context :=
  {| author := member; guild := g; channel := (10 * g)%N |}.

(** The cog after [?commands add x t1] by the owner in guild A. *)
Definition cog_x_in_A : Commands.t :=
  {| bot :=
       {| Bot.command_prefix := "?";
          Bot.bot_admins := [7%N];
          Bot.all_commands := {[ "x" := make_command "x" "t1" ]};
          Bot.sent := [(10%N, "added command ?x")] |};
     guild_admin_permission := true;
     bot_admin_permission := true;
     everyone_permission := false;
     db := {[ guildA := {[ "x" := "t1" ]} ]} |}.

(** The cog after [x] was added in guild A and then in guild B. *)
Definition cog_x_in_both : Commands.t :=
  {| bot :=
       {| Bot.command_prefix := "?";
          Bot.bot_admins := [7%N];
          Bot.all_commands := {[ "x" := make_command "x" "t2" ]};
          Bot.sent := [(10%N, "added command ?x"); (20%N, "added command ?x")] |};
     guild_admin_permission := true;
     bot_admin_permission := true;
     everyone_permission := false;
     db := {[ guildA := {[ "x" := "t1" ]}; guildB := {[ "x" := "t2" ]} ]} |}.

(** The store after [x] was added in both guilds. *)
Definition shared_name : GuildDatabase.t :=
  {[ guildA := {[ "x" := "t1" ]}; guildB := {[ "x" := "t2" ]} ]}.

(** A store in which every name belongs to one guild. *)
Definition two_names : GuildDatabase.t :=
  {[ guildA := {[ "x" := "t1" ]}; guildB := {[ "y" := "t2" ]} ]}.

End Fixture.

(** ** Notices *)

(** [self'] is [self] after exactly one more notice: [message], sent to
    [ch]. *)
Definition sends_one (self self' : Commands.t) (ch : Channel)
    (message : string) : Prop :=
  Bot.sent (bot self') = (Bot.sent (bot self) ++ [(ch, message)])%list.

(** ** Startup, flattened *)

(** The entries that [__init__] registers, in the order of its two loops. *)
Definition startup_entries (tables : gmap Guild (gmap string string))
  : list (string * string) :=
  (map_to_list tables).*2 ≫= map_to_list.

(** The distinct command names of a store, over all guilds. *)
Definition distinct_names (tables : gmap Guild (gmap string string))
  : gset string :=
  list_to_set (startup_entries tables).*1.

(** The names under which [__init__] registers the entries, in the order of
    its two loops, and the set of them. *)
Definition startup_names (tables : gmap Guild (gmap string string))
  : list string :=
  command_name <$> (startup_entries tables).*1.

Definition registered_names (tables : gmap Guild (gmap string string))
  : gset string :=
  list_to_set (startup_names tables).

(** ** Stores that startup accepts *)

(** No command name is stored in two guilds. *)
Definition one_guild_per_name (tables : gmap Guild (gmap string string))
  : Prop :=
  ∀ g1 g2 n,
    g1 ≠ g2 →
    is_Some (GuildDatabase.value tables g1 n) →
    GuildDatabase.value tables g2 n = None.

(** No stored command name is registered in the bot. *)
Definition names_free (b : Bot.t) (tables : gmap Guild (gmap string string))
  : Prop :=
  ∀ g n,
    is_Some (GuildDatabase.value tables g n) →
    Bot.all_commands b !! n = None.

(** The empty string is not a stored command name. *)
Definition names_nonempty (tables : gmap Guild (gmap string string))
  : Prop :=
  ∀ g, GuildDatabase.value tables g "" = None.

(** ** Requests *)

(** Modelled from the spec: the surface of the cog as the dispatcher serves
    it.  [commands add <name> <text>] and [commands remove <name>] reach
    [_add] and [_remove]; a typed command name reaches [invoke]. *)
Inductive request : Type :=
  | Add (ctx : Context) (name text : string)
  | Remove (ctx : Context) (name : string)
  | Invoke (ctx : Context) (name : string).

Definition handle (self : Commands.t) (r : request) : result Commands.t :=
  match r with
  | Add ctx name text => _add self ctx name text
  | Remove ctx name => _remove self ctx name
  | Invoke ctx name => invoke self ctx name
  end.

(** The requests of a session, served one after the other; a fault ends
    the session. *)
Definition serve (rs : list request) (self : Commands.t)
  : result Commands.t :=
  for_each handle rs self.

(** The settings that decide permissions and the wording of notices are
    the same in [self] and [self']. *)
Definition same_settings (self self' : Commands.t) : Prop :=
  Bot.bot_admins (bot self') = Bot.bot_admins (bot self)
  ∧ Bot.command_prefix (bot self') = Bot.command_prefix (bot self)
  ∧ guild_admin_permission self' = guild_admin_permission self
  ∧ bot_admin_permission self' = bot_admin_permission self
  ∧ everyone_permission self' = everyone_permission self.

(** * Properties *)

(** ** Laws of the persisted store *)

Section StoreLaws.
Implicit Types (db : gmap Guild (gmap string string)) (g : Guild).
Implicit Types (key val : string).

Lemma value_set_eq db g key val :
  GuildDatabase.value (GuildDatabase.set db g key val) g key = Some val.
Proof.
  unfold GuildDatabase.value, GuildDatabase.set.
  rewrite lookup_insert_eq. simpl. apply lookup_insert_eq.
Qed.

Lemma value_set_ne db g key val g' key' :
  (g, key) ≠ (g', key') →
  GuildDatabase.value (GuildDatabase.set db g key val) g' key'
  = GuildDatabase.value db g' key'.
Proof.
  intros Hne. unfold GuildDatabase.value, GuildDatabase.set.
  destruct (decide (g = g')) as [<- | Hg].
  - rewrite lookup_insert_eq. simpl.
    rewrite lookup_insert_ne by congruence.
    destruct (db !! g); simpl; [done | apply lookup_empty].
  - by rewrite lookup_insert_ne.
Qed.

Lemma value_clear_eq db g key :
  GuildDatabase.value (GuildDatabase.clear db g key) g key = None.
Proof.
  unfold GuildDatabase.value, GuildDatabase.clear.
  rewrite lookup_alter_eq.
  destruct (db !! g); simpl; [apply lookup_delete_eq | done].
Qed.

Lemma value_clear_ne db g key g' key' :
  (g, key) ≠ (g', key') →
  GuildDatabase.value (GuildDatabase.clear db g key) g' key'
  = GuildDatabase.value db g' key'.
Proof.
  intros Hne. unfold GuildDatabase.value, GuildDatabase.clear.
  destruct (decide (g = g')) as [<- | Hg].
  - rewrite lookup_alter_eq.
    destruct (db !! g); simpl; [| done].
    rewrite lookup_delete_ne; [done | congruence].
  - by rewrite lookup_alter_ne.
Qed.

Lemma clear_absent db g key :
  GuildDatabase.value db g key = None → GuildDatabase.clear db g key = db.
Proof.
  unfold GuildDatabase.value, GuildDatabase.clear. intros Habs.
  apply map_eq. intros g'.
  destruct (decide (g = g')) as [<- | Hg].
  - rewrite lookup_alter_eq.
    destruct (db !! g) as [table |]; simpl in *; [| done].
    by rewrite delete_id.
  - by rewrite lookup_alter_ne.
Qed.

End StoreLaws.

(** ** What the cog's steps leave alone *)

Section Frames.
Implicit Types (self : Commands.t) (ctx : Context) (b : Bot.t).

Lemma command_name_nonempty name : name ≠ "" → command_name name = name.
Proof. intros Hne. unfold command_name. by case_decide. Qed.

Lemma command_name_not_empty name : command_name name ≠ "".
Proof. unfold command_name. by case_decide. Qed.

(** A permitted [add] of a name that is not empty never raises: the name is
    removed before it is registered again. *)
Lemma add_permitted self ctx name text :
  name ≠ "" →
  has_permission self (author ctx) = true →
  add self ctx name text
  = Ok {| bot :=
            {| Bot.command_prefix := Bot.command_prefix (bot self);
               Bot.bot_admins := Bot.bot_admins (bot self);
               Bot.all_commands :=
                 <[name := make_command name text]>
                   (delete name (Bot.all_commands (bot self)));
               Bot.sent :=
                 Bot.sent (bot self)
                 ++ [(channel ctx,
                      "added command " ++ Bot.command_prefix (bot self) ++ name)] |};
          guild_admin_permission := guild_admin_permission self;
          bot_admin_permission := bot_admin_permission self;
          everyone_permission := everyone_permission self;
          db := GuildDatabase.set (db self) (guild ctx) name text |}.
Proof.
  intros Hname Hperm. unfold add. rewrite Hperm. simpl.
  unfold Bot.add_command. simpl.
  rewrite (command_name_nonempty name Hname). by rewrite lookup_delete_eq.
Qed.

Lemma remove_permitted self ctx name :
  has_permission self (author ctx) = true →
  remove self ctx name
  = Ok {| bot :=
            {| Bot.command_prefix := Bot.command_prefix (bot self);
               Bot.bot_admins := Bot.bot_admins (bot self);
               Bot.all_commands := delete name (Bot.all_commands (bot self));
               Bot.sent :=
                 Bot.sent (bot self)
                 ++ [(channel ctx,
                      "removed command " ++ Bot.command_prefix (bot self) ++ name)] |};
          guild_admin_permission := guild_admin_permission self;
          bot_admin_permission := bot_admin_permission self;
          everyone_permission := everyone_permission self;
          db := GuildDatabase.clear (db self) (guild ctx) name |}.
Proof. intros Hperm. unfold remove. by rewrite Hperm. Qed.

Lemma invoke_registered self ctx name text0 :
  Bot.all_commands (bot self) !! name = Some (make_command name text0) →
  invoke self ctx name
  = Ok (with_bot
          (Bot.message_guild
             (default "this command is not available in this guild"
                (GuildDatabase.value (db self) (guild ctx) name))
             (channel ctx) (bot self)) self).
Proof.
  intros Hreg. unfold invoke. rewrite Hreg. simpl.
  unfold _command, _get_command. simpl.
  by destruct (GuildDatabase.value _ _ _).
Qed.

End Frames.

(** ** Permission *)

Section Permission.
Implicit Types (self : Commands.t) (member : Member).

(** C5: [has_permission] answers true exactly when the
    [everyone_permission] flag is set, or the actor is a guild
    administrator, or the actor is a bot-level administrator.  It is a
    function from the cog and the member to a boolean: it returns no new
    cog, so it has no effect on the store, the dispatcher or the notices. *)
Theorem has_permission_iff self member :
  has_permission self member = true
  ↔ everyone_permission self = true
    ∨ is_admin member = true
    ∨ Bot.is_bot_admin (bot self) member = true.
Proof.
  unfold has_permission.
  destruct (everyone_permission self); [by intuition |].
  destruct (is_admin member); simpl; [by intuition |].
  destruct (Bot.is_bot_admin (bot self) member); intuition congruence.
Qed.

(** C6: two cogs that agree on the bot, the store and the
    [everyone_permission] flag give every actor the same permission,
    whatever their [guild_admin_permission] and [bot_admin_permission]
    flags are. *)
Theorem has_permission_ignores_admin_flags self self' member :
  bot self = bot self' →
  db self = db self' →
  everyone_permission self = everyone_permission self' →
  has_permission self member = has_permission self' member.
Proof.
  intros Hbot _ Hevery. unfold has_permission. by rewrite Hbot, Hevery.
Qed.

Lemma has_permission_ignores_admin_flags_witness :
  guild_admin_permission Fixture.cog0 ≠ guild_admin_permission Fixture.cog_flags_off
  ∧ bot_admin_permission Fixture.cog0 ≠ bot_admin_permission Fixture.cog_flags_off
  ∧ has_permission Fixture.cog0 Fixture.moderator
    = has_permission Fixture.cog_flags_off Fixture.moderator.
Proof.
  split; [discriminate |]. split; [discriminate |].
  apply (has_permission_ignores_admin_flags Fixture.cog0 Fixture.cog_flags_off);
    reflexivity.
Defined.

End Permission.

(** ** The denied path *)

Section Denied.
Implicit Types (self : Commands.t) (ctx : Context) (name text : string).

(** C3: when the actor has no permission, [add] and [remove] both return
    normally with the store and the command table as they were, and with
    exactly one more notice: the denial, which starts with the actor's
    mention and goes to the channel of the request. *)
Theorem denied_changes_nothing self ctx name text :
  has_permission self (author ctx) = false →
  (∃ self',
      add self ctx name text = Ok self'
      ∧ db self' = db self
      ∧ Bot.all_commands (bot self') = Bot.all_commands (bot self)
      ∧ sends_one self self' (channel ctx)
          (mention (author ctx)
             ++ ", you do not have permission to add a command"))
  ∧ (∃ self',
      remove self ctx name = Ok self'
      ∧ db self' = db self
      ∧ Bot.all_commands (bot self') = Bot.all_commands (bot self)
      ∧ sends_one self self' (channel ctx)
          (mention (author ctx)
             ++ ", you do not have permission to remove a command")).
Proof.
  intros Hperm. unfold add, remove. rewrite Hperm. simpl.
  split; eexists; (split; [reflexivity | done]).
Qed.

Lemma denied_changes_nothing_witness :
  has_permission Fixture.cog0 Fixture.visitor = false
  ∧ (∃ self',
      add Fixture.cog0 (Fixture.in_guild Fixture.visitor Fixture.guildA)
        "x" "t1" = Ok self'
      ∧ db self' = db Fixture.cog0
      ∧ Bot.all_commands (bot self') = Bot.all_commands (bot Fixture.cog0)
      ∧ sends_one Fixture.cog0 self' 10%N
          "<@9>, you do not have permission to add a command")
  ∧ (∃ self',
      remove Fixture.cog0 (Fixture.in_guild Fixture.visitor Fixture.guildA)
        "x" = Ok self'
      ∧ db self' = db Fixture.cog0
      ∧ Bot.all_commands (bot self') = Bot.all_commands (bot Fixture.cog0)
      ∧ sends_one Fixture.cog0 self' 10%N
          "<@9>, you do not have permission to remove a command").
Proof.
  split; [reflexivity |].
  apply (denied_changes_nothing Fixture.cog0
           (Fixture.in_guild Fixture.visitor Fixture.guildA) "x" "t1").
  reflexivity.
Defined.

End Denied.

(** ** Adding and invoking *)

Section AddInvoke.
Implicit Types (self : Commands.t) (ctx : Context) (name text : string).

(** C1: for a non-empty name and a non-empty text, a permitted [add]
    returns normally, and invoking the name afterwards in the same guild
    returns normally and sends exactly the text, once, to the channel of
    the invocation. *)
Theorem add_then_invoke self ctx ctx' name text :
  name ≠ "" →
  text ≠ "" →
  has_permission self (author ctx) = true →
  guild ctx' = guild ctx →
  ∃ self1 self2,
    add self ctx name text = Ok self1
    ∧ invoke self1 ctx' name = Ok self2
    ∧ sends_one self1 self2 (channel ctx') text.
Proof.
  intros Hname _ Hperm Hguild.
  eexists. eexists. split; [by apply add_permitted |].
  split.
  - apply (invoke_registered _ _ _ text). simpl. apply lookup_insert_eq.
  - unfold sends_one. simpl. by rewrite Hguild, value_set_eq.
Qed.

Lemma add_then_invoke_witness :
  has_permission Fixture.cog0 Fixture.owner = true
  ∧ ∃ self1 self2,
      add Fixture.cog0 (Fixture.in_guild Fixture.owner Fixture.guildA)
        "x" "t1" = Ok self1
      ∧ invoke self1 (Fixture.in_guild Fixture.visitor Fixture.guildA) "x"
        = Ok self2
      ∧ sends_one self1 self2 10%N "t1".
Proof.
  split; [reflexivity |].
  apply (add_then_invoke Fixture.cog0
           (Fixture.in_guild Fixture.owner Fixture.guildA)
           (Fixture.in_guild Fixture.visitor Fixture.guildA) "x" "t1");
    [discriminate | discriminate | reflexivity | reflexivity].
Defined.

(** C2: invoking a name whose handler is installed returns normally in
    every guild; the store and the command table stay as they are, and
    exactly one notice goes to the channel of the invocation: the text
    stored under the invoking guild and the name when there is one, the
    fixed notice otherwise. *)
Theorem invoke_sends_stored_or_notice self ctx name text0 :
  Bot.all_commands (bot self) !! name = Some (make_command name text0) →
  ∃ self',
    invoke self ctx name = Ok self'
    ∧ db self' = db self
    ∧ Bot.all_commands (bot self') = Bot.all_commands (bot self)
    ∧ match GuildDatabase.value (db self) (guild ctx) name with
      | Some text => sends_one self self' (channel ctx) text
      | None =>
          sends_one self self' (channel ctx)
            "this command is not available in this guild"
      end.
Proof.
  intros Hreg. eexists. split; [by apply (invoke_registered _ _ _ text0) |].
  unfold sends_one. simpl.
  by destruct (GuildDatabase.value (db self) (guild ctx) name).
Qed.

Lemma invoke_sends_stored_or_notice_witness :
  Bot.all_commands (bot Fixture.cog_x_in_A) !! "x"
  = Some (make_command "x" "t1")
  ∧ (∃ self',
        invoke Fixture.cog_x_in_A
          (Fixture.in_guild Fixture.visitor Fixture.guildA) "x" = Ok self'
        ∧ db self' = db Fixture.cog_x_in_A
        ∧ Bot.all_commands (bot self')
          = Bot.all_commands (bot Fixture.cog_x_in_A)
        ∧ sends_one Fixture.cog_x_in_A self' 10%N "t1")
  ∧ (∃ self',
        invoke Fixture.cog_x_in_A
          (Fixture.in_guild Fixture.visitor Fixture.guildB) "x" = Ok self'
        ∧ db self' = db Fixture.cog_x_in_A
        ∧ Bot.all_commands (bot self')
          = Bot.all_commands (bot Fixture.cog_x_in_A)
        ∧ sends_one Fixture.cog_x_in_A self' 20%N
            "this command is not available in this guild").
Proof.
  split; [reflexivity |]. split.
  - exact (invoke_sends_stored_or_notice Fixture.cog_x_in_A
             (Fixture.in_guild Fixture.visitor Fixture.guildA) "x" "t1"
             eq_refl).
  - exact (invoke_sends_stored_or_notice Fixture.cog_x_in_A
             (Fixture.in_guild Fixture.visitor Fixture.guildB) "x" "t1"
             eq_refl).
Defined.

End AddInvoke.

(** ** One handler name, two guilds *)

Section SharedName.
Implicit Types (self : Commands.t) (ctx : Context) (x : string).

(** C7: for a name [x] as [add] takes it, a string that is not empty:
    after a permitted [add] of [x] with [t1] in guild A and then a
    permitted [add] of [x] with [t2] in another guild B, invoking [x] in A
    sends [t1] and invoking [x] in B sends [t2].  The second [add] leaves
    the content stored for A as it was, and the command table holds one
    handler for [x], the one installed by the second [add]. *)
Theorem same_name_in_two_guilds self ctxA ctxB invA invB x (t1 t2 : string) :
  x ≠ "" →
  guild ctxA ≠ guild ctxB →
  has_permission self (author ctxA) = true →
  has_permission self (author ctxB) = true →
  guild invA = guild ctxA →
  guild invB = guild ctxB →
  ∃ self1 self2 outA outB,
    add self ctxA x t1 = Ok self1
    ∧ add self1 ctxB x t2 = Ok self2
    ∧ invoke self2 invA x = Ok outA
    ∧ sends_one self2 outA (channel invA) t1
    ∧ invoke self2 invB x = Ok outB
    ∧ sends_one self2 outB (channel invB) t2
    ∧ GuildDatabase.value (db self2) (guild ctxA) x
      = GuildDatabase.value (db self1) (guild ctxA) x
    ∧ Bot.all_commands (bot self2) !! x = Some (make_command x t2).
Proof.
  intros Hx Hne HpermA HpermB HinvA HinvB.
  eexists. eexists. eexists. eexists.
  split; [by apply add_permitted |].
  split; [by apply add_permitted |].
  assert (Hreg : ∀ cmds : gmap string Command,
             <[x := make_command x t2]> cmds !! x = Some (make_command x t2))
    by (intros; apply lookup_insert_eq).
  split; [apply (invoke_registered _ _ _ t2); simpl; apply Hreg |].
  split.
  { unfold sends_one. simpl. rewrite HinvA.
    rewrite value_set_ne by congruence. by rewrite value_set_eq. }
  split; [apply (invoke_registered _ _ _ t2); simpl; apply Hreg |].
  split.
  { unfold sends_one. simpl. rewrite HinvB. by rewrite value_set_eq. }
  split; [simpl; apply value_set_ne; congruence |].
  simpl. apply Hreg.
Qed.

Lemma same_name_in_two_guilds_witness :
  "x" ≠ ""
  ∧ Fixture.guildA ≠ Fixture.guildB
  ∧ has_permission Fixture.cog0 Fixture.owner = true
  ∧ has_permission Fixture.cog0 Fixture.moderator = true
  ∧ ∃ self1 self2 outA outB,
      add Fixture.cog0 (Fixture.in_guild Fixture.owner Fixture.guildA)
        "x" "t1" = Ok self1
      ∧ add self1 (Fixture.in_guild Fixture.moderator Fixture.guildB)
          "x" "t2" = Ok self2
      ∧ invoke self2 (Fixture.in_guild Fixture.visitor Fixture.guildA) "x"
        = Ok outA
      ∧ sends_one self2 outA 10%N "t1"
      ∧ invoke self2 (Fixture.in_guild Fixture.visitor Fixture.guildB) "x"
        = Ok outB
      ∧ sends_one self2 outB 20%N "t2"
      ∧ GuildDatabase.value (db self2) Fixture.guildA "x"
        = GuildDatabase.value (db self1) Fixture.guildA "x"
      ∧ Bot.all_commands (bot self2) !! "x" = Some (make_command "x" "t2").
Proof.
  split; [discriminate |].
  split; [discriminate |]. split; [reflexivity |]. split; [reflexivity |].
  apply (same_name_in_two_guilds Fixture.cog0
           (Fixture.in_guild Fixture.owner Fixture.guildA)
           (Fixture.in_guild Fixture.moderator Fixture.guildB)
           (Fixture.in_guild Fixture.visitor Fixture.guildA)
           (Fixture.in_guild Fixture.visitor Fixture.guildB)
           "x" "t1" "t2");
    [discriminate | discriminate
     | reflexivity | reflexivity | reflexivity | reflexivity].
Defined.

End SharedName.

(** ** Removing *)

Section Remove.
Implicit Types (self : Commands.t) (ctx : Context) (x name : string).

(** C8: a permitted [remove] of [x] in guild A returns normally; afterwards
    the store has no entry for [(A, x)] and the command table has no
    handler for [x], whichever guilds still hold the name.  Every other
    entry of the store reads as before, every other guild's table is the
    one it was, and every handler under another name is still installed. *)
Theorem remove_clears_one_entry self ctx x :
  has_permission self (author ctx) = true →
  ∃ self',
    remove self ctx x = Ok self'
    ∧ GuildDatabase.value (db self') (guild ctx) x = None
    ∧ Bot.all_commands (bot self') !! x = None
    ∧ (∀ g n, (g, n) ≠ (guild ctx, x) →
         GuildDatabase.value (db self') g n = GuildDatabase.value (db self) g n)
    ∧ (∀ g, g ≠ guild ctx →
         GuildDatabase.tables (db self') !! g
         = GuildDatabase.tables (db self) !! g)
    ∧ (∀ n, n ≠ x →
         Bot.all_commands (bot self') !! n = Bot.all_commands (bot self) !! n).
Proof.
  intros Hperm. eexists. split; [by apply remove_permitted |]. simpl.
  split; [apply value_clear_eq |].
  split; [apply lookup_delete_eq |].
  split; [intros g n Hne; apply value_clear_ne; congruence |].
  split.
  - intros g Hg. unfold GuildDatabase.tables, GuildDatabase.clear.
    by rewrite lookup_alter_ne.
  - intros n Hn. by rewrite lookup_delete_ne.
Qed.

Lemma remove_clears_one_entry_witness :
  has_permission Fixture.cog_x_in_both Fixture.owner = true
  ∧ GuildDatabase.value (db Fixture.cog_x_in_both) Fixture.guildA "x"
    = Some "t1"
  ∧ ∃ self',
      remove Fixture.cog_x_in_both
        (Fixture.in_guild Fixture.owner Fixture.guildA) "x" = Ok self'
      ∧ GuildDatabase.value (db self') Fixture.guildA "x" = None
      ∧ GuildDatabase.value (db self') Fixture.guildB "x" = Some "t2"
      ∧ Bot.all_commands (bot self') !! "x" = None.
Proof.
  split; [reflexivity |]. split; [reflexivity |].
  destruct (remove_clears_one_entry Fixture.cog_x_in_both
              (Fixture.in_guild Fixture.owner Fixture.guildA) "x" eq_refl)
    as (self' & Hrm & HA & Hcmd & Hother & _).
  exists self'. split; [exact Hrm |]. split; [exact HA |].
  split; [| exact Hcmd].
  rewrite (Hother Fixture.guildB "x"); [reflexivity | discriminate].
Defined.

(** C9: a permitted [remove] returns normally and sends the success notice,
    [removed command] followed by the prefix and the name, whether or not
    the name is in the guild's store or in the command table; where it is
    in neither, the store and the command table are left as they were. *)
Theorem remove_without_existence_check self ctx name :
  has_permission self (author ctx) = true →
  ∃ self',
    remove self ctx name = Ok self'
    ∧ sends_one self self' (channel ctx)
        ("removed command " ++ Bot.command_prefix (bot self) ++ name)
    ∧ (GuildDatabase.value (db self) (guild ctx) name = None →
       db self' = db self)
    ∧ (Bot.all_commands (bot self) !! name = None →
       Bot.all_commands (bot self') = Bot.all_commands (bot self)).
Proof.
  intros Hperm. eexists. split; [by apply remove_permitted |].
  split; [done |]. simpl. split.
  - apply clear_absent.
  - apply delete_id.
Qed.

Lemma remove_without_existence_check_witness :
  has_permission Fixture.cog0 Fixture.owner = true
  ∧ GuildDatabase.value (db Fixture.cog0) Fixture.guildA "x" = None
  ∧ Bot.all_commands (bot Fixture.cog0) !! "x" = None
  ∧ ∃ self',
      remove Fixture.cog0 (Fixture.in_guild Fixture.owner Fixture.guildA)
        "x" = Ok self'
      ∧ sends_one Fixture.cog0 self' 10%N "removed command ?x"
      ∧ db self' = db Fixture.cog0
      ∧ Bot.all_commands (bot self') = Bot.all_commands (bot Fixture.cog0).
Proof.
  split; [reflexivity |]. split; [reflexivity |]. split; [reflexivity |].
  destruct (remove_without_existence_check Fixture.cog0
              (Fixture.in_guild Fixture.owner Fixture.guildA) "x" eq_refl)
    as (self' & Hrm & Hsent & Hdb & Hcmds).
  exists self'. split; [exact Hrm |]. split; [exact Hsent |].
  split; [apply Hdb | apply Hcmds]; reflexivity.
Defined.

End Remove.

(** ** The handler and the text it was made with *)

Section Handler.
Implicit Types (self : Commands.t) (ctx : Context) (name t : string).

(** C10: the handlers made by [make_command name t] and
    [make_command name t'] take every cog to the same cog, although they
    are different commands when the texts differ: the [text] parameter is
    never read.  What a handler sends is the store's content for the
    invoking guild and the name when it runs, or the fixed notice when
    there is none. *)
Theorem handler_ignores_its_text name t t' self ctx :
  _command (callback (make_command name t)) self ctx
  = _command (callback (make_command name t')) self ctx
  ∧ sends_one self (_command (callback (make_command name t)) self ctx)
      (channel ctx)
      (default "this command is not available in this guild"
         (GuildDatabase.value (db self) (guild ctx) name))
  ∧ (t ≠ t' → make_command name t ≠ make_command name t').
Proof.
  split; [reflexivity |]. split.
  - unfold sends_one, _command, _get_command. simpl.
    by destruct (GuildDatabase.value (db self) (guild ctx) name).
  - intros Hne Heq. apply Hne. by injection Heq.
Qed.

End Handler.

(** ** Startup *)

Section Startup.
Implicit Types (b : Bot.t) (entries : list (string * string)).
Implicit Types (tables : gmap Guild (gmap string string)).

Lemma for_each_app {A S : Type} (body : S → A → result S) (xs ys : list A) s :
  for_each body (xs ++ ys) s = for_each body xs s ≫= for_each body ys.
Proof.
  revert s. induction xs as [| x xs IH]; intros s; simpl; [done |].
  destruct (body s x); simpl; [apply IH | done].
Qed.

(** The nested loops register the flattened entries one after the other. *)
Lemma register_tables_flat (tbls : list (gmap string string)) b :
  for_each register_table tbls b
  = for_each register_entry (tbls ≫= map_to_list) b.
Proof.
  revert b. induction tbls as [| table tbls IH]; intros b; simpl; [done |].
  rewrite for_each_app.
  change (register_table b table)
    with (for_each register_entry (map_to_list table) b).
  destruct (for_each register_entry (map_to_list table) b); simpl;
    [apply IH | done].
Qed.

Lemma register_entry_unfold b (n text : string) :
  register_entry b (n, text)
  = match Bot.all_commands b !! command_name n with
    | Some _ => Raise (CommandRegistrationError (command_name n))
    | None =>
        Ok (Bot.with_commands
              (<[command_name n := make_command n text]> (Bot.all_commands b))
              b)
    end.
Proof. reflexivity. Qed.

Lemma for_each_cons {A S : Type} (body : S → A → result S) x (xs : list A) s :
  for_each body (x :: xs) s = body s x ≫= for_each body xs.
Proof. reflexivity. Qed.

(** Registration goes through exactly when no registered name comes twice
    and none is taken already; it then adds one handler per entry. *)
Lemma register_entries_Ok entries b b' :
  for_each register_entry entries b = Ok b' →
  NoDup (command_name <$> entries.*1)
  ∧ (∀ n, n ∈ command_name <$> entries.*1 →
          Bot.all_commands b !! n = None)
  ∧ dom (Bot.all_commands b')
    = dom (Bot.all_commands b) ∪ list_to_set (command_name <$> entries.*1)
  ∧ size (Bot.all_commands b')
    = size (Bot.all_commands b) + length entries.
Proof.
  revert b. induction entries as [| [n text] entries IH]; intros b.
  - intros [= <-]. split; [constructor |]. split; [set_solver |].
    split; [set_solver | simpl; lia].
  - rewrite !fmap_cons, for_each_cons, register_entry_unfold. cbn [fst].
    destruct (Bot.all_commands b !! command_name n) eqn:Hn; simpl; [done |].
    intros Hrest. apply IH in Hrest as (Hnd & Hfresh & Hdom & Hsize).
    simpl in Hfresh, Hdom, Hsize.
    assert (Hnotin : command_name n ∉ command_name <$> entries.*1).
    { intros Hin. apply Hfresh in Hin. by rewrite lookup_insert_eq in Hin. }
    split; [by constructor |]. split.
    + intros m [-> | Hm]%elem_of_cons; [done |].
      apply Hfresh in Hm. rewrite lookup_insert in Hm.
      by case_decide.
    + split.
      * rewrite Hdom, dom_insert_L. set_solver.
      * rewrite Hsize, map_size_insert_None by done. lia.
Qed.

Lemma register_entries_Raise entries b e :
  for_each register_entry entries b = Raise e →
  ∃ n, e = CommandRegistrationError n ∧ n ∈ command_name <$> entries.*1.
Proof.
  revert b. induction entries as [| [n text] entries IH]; intros b;
    [done |].
  rewrite !fmap_cons, for_each_cons, register_entry_unfold. cbn [fst].
  destruct (Bot.all_commands b !! command_name n) eqn:Hn; simpl.
  - intros [= <-]. exists (command_name n). split; [done | set_solver].
  - intros (m & -> & Hm)%IH. exists m. split; [done | set_solver].
Qed.

Lemma register_entries_fresh entries b :
  NoDup (command_name <$> entries.*1) →
  (∀ n, n ∈ command_name <$> entries.*1 →
        Bot.all_commands b !! n = None) →
  ∃ b', for_each register_entry entries b = Ok b'.
Proof.
  revert b. induction entries as [| [n text] entries IH]; intros b.
  - intros _ _. by eexists.
  - rewrite !fmap_cons, for_each_cons, register_entry_unfold. cbn [fst].
    intros [Hnotin Hnd]%NoDup_cons Hfresh.
    rewrite (Hfresh (command_name n)) by set_solver. simpl.
    apply IH; [done |].
    intros m Hm. simpl. rewrite lookup_insert_ne by set_solver.
    apply Hfresh. set_solver.
Qed.

(** A list of names that does not hold the empty name is registered as it
    stands. *)
Lemma command_names_nonempty (names : list string) :
  "" ∉ names → command_name <$> names = names.
Proof.
  induction names as [| n names IH]; [done |].
  intros [Hn Hnames]%not_elem_of_cons. rewrite fmap_cons, IH by done.
  by rewrite command_name_nonempty.
Qed.

(** A name held by two guilds comes twice among the startup entries. *)
Lemma shared_name_twice tables (g1 g2 : Guild) (tbl1 tbl2 : gmap string string) x :
  g1 ≠ g2 →
  tables !! g1 = Some tbl1 →
  tables !! g2 = Some tbl2 →
  is_Some (tbl1 !! x) →
  is_Some (tbl2 !! x) →
  ¬ NoDup (startup_entries tables).*1.
Proof.
  intros Hne H1 H2 [v1 Hx1] [v2 Hx2] Hnd. unfold startup_entries in Hnd.
  apply elem_of_map_to_list in H1, H2.
  apply elem_of_map_to_list in Hx1, Hx2.
  apply list_elem_of_split in H1 as (l1 & l2 & Hsplit).
  rewrite Hsplit in H2, Hnd.
  rewrite fmap_app, fmap_cons, bind_app, bind_cons, !fmap_app in Hnd.
  simpl in Hnd.
  assert (Hin1 : x ∈ (map_to_list tbl1).*1)
    by (apply list_elem_of_fmap; by exists (x, v1)).
  assert (Hin2 : ∀ l : list (Guild * gmap string string),
             (g2, tbl2) ∈ l → x ∈ (l.*2 ≫= map_to_list).*1).
  { intros l Hl. apply list_elem_of_fmap. exists (x, v2). split; [done |].
    apply list_elem_of_bind. exists tbl2. split; [done |].
    apply list_elem_of_fmap. by exists (g2, tbl2). }
  apply NoDup_app in Hnd as (_ & Hl1 & Hnd).
  apply NoDup_app in Hnd as (_ & Hl2 & _).
  apply elem_of_app in H2 as [H2 | H2].
  - apply (Hl1 x); [by apply Hin2 | set_solver].
  - apply elem_of_cons in H2 as [[= -> _] | H2]; [done |].
    apply (Hl2 x); [done | by apply Hin2].
Qed.

(** Startup goes through exactly on the stores whose names are pairwise
    distinct over all guilds and free in the bot. *)
Lemma startup_succeeds bot0 tables (gap bap ep : bool) :
  NoDup (startup_names tables) →
  (∀ n, n ∈ startup_names tables → Bot.all_commands bot0 !! n = None) →
  ∃ self, __init__ bot0 tables gap bap ep = Ok self.
Proof.
  intros Hnd Hfresh. unfold __init__, GuildDatabase.tables.
  rewrite register_tables_flat.
  destruct (register_entries_fresh _ bot0 Hnd Hfresh) as [b' Hb'].
  unfold startup_entries in Hb'. rewrite Hb'. simpl. by eexists.
Qed.

(** When startup goes through, it has installed one handler per distinct
    name of the store, each under the name it is registered with. *)
Lemma startup_installs_distinct_names bot0 tables (gap bap ep : bool) self :
  __init__ bot0 tables gap bap ep = Ok self →
  db self = tables
  ∧ dom (Bot.all_commands (bot self))
    = dom (Bot.all_commands bot0) ∪ registered_names tables
  ∧ size (Bot.all_commands (bot self))
    = size (Bot.all_commands bot0) + size (distinct_names tables).
Proof.
  unfold __init__, GuildDatabase.tables. rewrite register_tables_flat.
  destruct (for_each register_entry _ bot0) as [b' |] eqn:Hreg; simpl;
    [| done].
  intros [= <-]. simpl.
  apply register_entries_Ok in Hreg as (Hnd & _ & Hdom & Hsize).
  apply NoDup_fmap_1 in Hnd.
  split; [done |]. split; [exact Hdom |].
  unfold distinct_names, startup_entries.
  by rewrite size_list_to_set, length_fmap.
Qed.

(** C4: on a store that holds one name in two guilds, [__init__] does not
    install one handler for the name: the second registration of the name
    raises, and the cog is not constructed. *)
Theorem startup_shared_name_raises bot0 tables (gap bap ep : bool)
    (g1 g2 : Guild) (tbl1 tbl2 : gmap string string) x :
  g1 ≠ g2 →
  GuildDatabase.tables tables !! g1 = Some tbl1 →
  GuildDatabase.tables tables !! g2 = Some tbl2 →
  is_Some (tbl1 !! x) →
  is_Some (tbl2 !! x) →
  ∃ n, __init__ bot0 tables gap bap ep = Raise (CommandRegistrationError n).
Proof.
  intros Hne H1 H2 Hx1 Hx2.
  pose proof (shared_name_twice tables g1 g2 tbl1 tbl2 x Hne H1 H2 Hx1 Hx2)
    as Hdup.
  unfold __init__, GuildDatabase.tables. rewrite register_tables_flat.
  destruct (for_each register_entry _ bot0) as [b' | e] eqn:Hreg; simpl.
  - apply register_entries_Ok in Hreg as (Hnd & _).
    apply NoDup_fmap_1 in Hnd. by destruct Hdup.
  - apply register_entries_Raise in Hreg as (n & -> & _). by exists n.
Qed.

Lemma startup_shared_name_raises_witness :
  Fixture.guildA ≠ Fixture.guildB
  ∧ GuildDatabase.value Fixture.shared_name Fixture.guildA "x" = Some "t1"
  ∧ GuildDatabase.value Fixture.shared_name Fixture.guildB "x" = Some "t2"
  ∧ ∃ n,
      __init__ Fixture.bot0 Fixture.shared_name true true false
      = Raise (CommandRegistrationError n).
Proof.
  split; [discriminate |]. split; [reflexivity |]. split; [reflexivity |].
  apply (startup_shared_name_raises Fixture.bot0 Fixture.shared_name
           true true false Fixture.guildA Fixture.guildB
           {[ "x" := "t1" ]} {[ "x" := "t2" ]} "x");
    [discriminate | reflexivity | reflexivity | by eexists | by eexists].
Defined.

(** The store with the shared name is the one two permitted [add]s leave
    behind, and restarting on it raises for the shared name. *)
Example restart_after_two_adds :
  (self1 ← add Fixture.cog0
             (Fixture.in_guild Fixture.owner Fixture.guildA) "x" "t1";
   add self1 (Fixture.in_guild Fixture.moderator Fixture.guildB) "x" "t2")
  = Ok Fixture.cog_x_in_both
  ∧ db Fixture.cog_x_in_both = Fixture.shared_name
  ∧ __init__ Fixture.bot0 Fixture.shared_name true true false
    = Raise (CommandRegistrationError "x").
Proof. split; [| split]; by vm_compute. Qed.

End Startup.

(** ** The whole effect of a permitted [add] *)

Section AddEffect.
Implicit Types (self : Commands.t) (ctx : Context) (name text : string).

(** A permitted [add] of a name that is not empty returns normally
    whatever the command table holds under the name: afterwards the name has the handler just made, every
    other name has the handler it had, and the table has grown by one
    handler when the name was free and by none when it was taken.  One
    notice is sent: [added command], the prefix and the name. *)
Theorem add_replaces_handler self ctx name text :
  name ≠ "" →
  has_permission self (author ctx) = true →
  ∃ self',
    add self ctx name text = Ok self'
    ∧ Bot.all_commands (bot self') !! name = Some (make_command name text)
    ∧ (∀ n, n ≠ name →
         Bot.all_commands (bot self') !! n = Bot.all_commands (bot self) !! n)
    ∧ size (Bot.all_commands (bot self'))
      = match Bot.all_commands (bot self) !! name with
        | Some _ => size (Bot.all_commands (bot self))
        | None => S (size (Bot.all_commands (bot self)))
        end
    ∧ sends_one self self' (channel ctx)
        ("added command " ++ Bot.command_prefix (bot self) ++ name).
Proof.
  intros Hname Hperm. eexists. split; [by apply add_permitted |]. simpl.
  split; [apply lookup_insert_eq |].
  split.
  { intros n Hn. rewrite lookup_insert_ne by done.
    by rewrite lookup_delete_ne. }
  split; [| done].
  rewrite insert_delete_eq, map_size_insert.
  by destruct (Bot.all_commands (bot self) !! name).
Qed.

Lemma add_replaces_handler_witness :
  has_permission Fixture.cog_x_in_A Fixture.moderator = true
  ∧ Bot.all_commands (bot Fixture.cog_x_in_A) !! "x"
    = Some (make_command "x" "t1")
  ∧ ∃ self',
      add Fixture.cog_x_in_A
        (Fixture.in_guild Fixture.moderator Fixture.guildB) "x" "t2"
      = Ok self'
      ∧ Bot.all_commands (bot self') !! "x" = Some (make_command "x" "t2")
      ∧ size (Bot.all_commands (bot self')) = 1
      ∧ sends_one Fixture.cog_x_in_A self' 20%N "added command ?x".
Proof.
  split; [reflexivity |]. split; [reflexivity |].
  destruct (add_replaces_handler Fixture.cog_x_in_A
              (Fixture.in_guild Fixture.moderator Fixture.guildB) "x" "t2"
              ltac:(discriminate) eq_refl)
    as (self' & Hadd & Hx & _ & Hsize & Hsent).
  exists self'. split; [exact Hadd |]. split; [exact Hx |].
  split; [exact Hsize | exact Hsent].
Defined.

(** A permitted [add] of a name that is not empty writes one entry of the
    store: the text is stored
    under the guild of the request and the name, and every other guild and
    name reads as before.  The three permission flags are not touched. *)
Theorem add_writes_one_entry self ctx name text :
  name ≠ "" →
  has_permission self (author ctx) = true →
  ∃ self',
    add self ctx name text = Ok self'
    ∧ GuildDatabase.value (db self') (guild ctx) name = Some text
    ∧ (∀ g n, (g, n) ≠ (guild ctx, name) →
         GuildDatabase.value (db self') g n = GuildDatabase.value (db self) g n)
    ∧ guild_admin_permission self' = guild_admin_permission self
    ∧ bot_admin_permission self' = bot_admin_permission self
    ∧ everyone_permission self' = everyone_permission self.
Proof.
  intros Hname Hperm. eexists. split; [by apply add_permitted |]. simpl.
  split; [apply value_set_eq |].
  split; [| done].
  intros g n Hne. apply value_set_ne. congruence.
Qed.

Lemma add_writes_one_entry_witness :
  has_permission Fixture.cog_x_in_A Fixture.moderator = true
  ∧ ∃ self',
      add Fixture.cog_x_in_A
        (Fixture.in_guild Fixture.moderator Fixture.guildB) "x" "t2"
      = Ok self'
      ∧ GuildDatabase.value (db self') Fixture.guildB "x" = Some "t2"
      ∧ GuildDatabase.value (db self') Fixture.guildA "x" = Some "t1".
Proof.
  split; [reflexivity |].
  destruct (add_writes_one_entry Fixture.cog_x_in_A
              (Fixture.in_guild Fixture.moderator Fixture.guildB) "x" "t2"
              ltac:(discriminate) eq_refl)
    as (self' & Hadd & HB & Hother & _).
  exists self'. split; [exact Hadd |]. split; [exact HB |].
  rewrite (Hother Fixture.guildA "x"); [reflexivity | discriminate].
Defined.

(** Adding a name that is not empty twice in one guild is last write wins: the store and the
    command table end up as after the second [add] alone, with one handler
    for the name, and invoking the name sends the second text. *)
Theorem add_last_write_wins self ctx ctx' inv name (text1 text2 : string) :
  name ≠ "" →
  has_permission self (author ctx) = true →
  has_permission self (author ctx') = true →
  guild ctx' = guild ctx →
  guild inv = guild ctx →
  ∃ self1 self2 once out,
    add self ctx name text1 = Ok self1
    ∧ add self1 ctx' name text2 = Ok self2
    ∧ add self ctx' name text2 = Ok once
    ∧ db self2 = db once
    ∧ Bot.all_commands (bot self2) = Bot.all_commands (bot once)
    ∧ invoke self2 inv name = Ok out
    ∧ sends_one self2 out (channel inv) text2.
Proof.
  intros Hname Hperm Hperm' Hguild Hinv.
  eexists. eexists. eexists. eexists.
  split; [by apply add_permitted |].
  split; [by apply add_permitted |].
  split; [by apply add_permitted |]. simpl.
  split.
  { unfold GuildDatabase.set. rewrite Hguild, lookup_insert_eq. simpl.
    by rewrite !insert_insert_eq. }
  split.
  { by rewrite delete_insert_eq, delete_delete_eq. }
  split.
  { apply (invoke_registered _ _ _ text2). simpl. apply lookup_insert_eq. }
  unfold sends_one. simpl. by rewrite Hinv, <- Hguild, value_set_eq.
Qed.

Lemma add_last_write_wins_witness :
  has_permission Fixture.cog0 Fixture.owner = true
  ∧ has_permission Fixture.cog0 Fixture.moderator = true
  ∧ ∃ self1 self2 once out,
      add Fixture.cog0 (Fixture.in_guild Fixture.owner Fixture.guildA)
        "x" "t1" = Ok self1
      ∧ add self1 (Fixture.in_guild Fixture.moderator Fixture.guildA)
          "x" "t2" = Ok self2
      ∧ add Fixture.cog0 (Fixture.in_guild Fixture.moderator Fixture.guildA)
          "x" "t2" = Ok once
      ∧ db self2 = db once
      ∧ Bot.all_commands (bot self2) = Bot.all_commands (bot once)
      ∧ invoke self2 (Fixture.in_guild Fixture.visitor Fixture.guildA) "x"
        = Ok out
      ∧ sends_one self2 out 10%N "t2".
Proof.
  split; [reflexivity |]. split; [reflexivity |].
  apply (add_last_write_wins Fixture.cog0
           (Fixture.in_guild Fixture.owner Fixture.guildA)
           (Fixture.in_guild Fixture.moderator Fixture.guildA)
           (Fixture.in_guild Fixture.visitor Fixture.guildA)
           "x" "t1" "t2"); [discriminate | reflexivity ..].
Defined.

(** The empty name: [add] removes the empty name but the handler is
    registered under [_command], the name of the handler function.  So the
    first permitted [add] of the empty name leaves no handler under the
    empty name, and a second one raises, in any guild and with any text:
    its [remove_command] finds nothing and [_command] is taken. *)
Theorem add_empty_name_twice self ctx ctx' (text text' : string) :
  Bot.all_commands (bot self) !! "_command" = None →
  has_permission self (author ctx) = true →
  has_permission self (author ctx') = true →
  ∃ self1,
    add self ctx "" text = Ok self1
    ∧ Bot.all_commands (bot self1) !! "" = None
    ∧ Bot.all_commands (bot self1) !! "_command"
      = Some (make_command "" text)
    ∧ add self1 ctx' "" text'
      = Raise (CommandRegistrationError "_command").
Proof.
  intros Hfree Hperm Hperm'.
  assert (Hkey : command_name "" = "_command") by reflexivity.
  assert (Hfirst : Bot.all_commands (bot self) !! "_command" = None
                   → delete "" (Bot.all_commands (bot self)) !! "_command"
                     = None)
    by (intros Hf; by rewrite lookup_delete_ne).
  unfold add at 1. rewrite Hperm. simpl.
  unfold Bot.add_command. simpl. rewrite Hkey, (Hfirst Hfree). simpl.
  eexists. split; [reflexivity |]. simpl.
  split; [rewrite lookup_insert_ne by done; apply lookup_delete_eq |].
  split; [apply lookup_insert_eq |].
  unfold add. simpl.
  change (has_permission _ (author ctx'))
    with (has_permission self (author ctx')).
  rewrite Hperm'. simpl. unfold Bot.add_command. simpl. rewrite Hkey.
  rewrite lookup_delete_ne by done. by rewrite lookup_insert_eq.
Qed.

Lemma add_empty_name_twice_witness :
  Bot.all_commands (bot Fixture.cog0) !! "_command" = None
  ∧ has_permission Fixture.cog0 Fixture.owner = true
  ∧ ∃ self1,
      add Fixture.cog0 (Fixture.in_guild Fixture.owner Fixture.guildA)
        "" "t1" = Ok self1
      ∧ Bot.all_commands (bot self1) !! "" = None
      ∧ Bot.all_commands (bot self1) !! "_command"
        = Some (make_command "" "t1")
      ∧ add self1 (Fixture.in_guild Fixture.owner Fixture.guildB) "" "t2"
        = Raise (CommandRegistrationError "_command").
Proof.
  split; [reflexivity |]. split; [reflexivity |].
  apply (add_empty_name_twice Fixture.cog0
           (Fixture.in_guild Fixture.owner Fixture.guildA)
           (Fixture.in_guild Fixture.owner Fixture.guildB) "t1" "t2");
    reflexivity.
Defined.

End AddEffect.

(** ** Removing, and what it leaves behind *)

Section RemoveEffect.
Implicit Types (self : Commands.t) (ctx : Context) (x name : string).

(** A text left behind by a [remove] in another guild is served again as
    soon as the name is added anywhere else: after [remove] of [x] in guild
    A and [add] of [x] in guild C, with [x] not empty, invoking [x] in a
    third guild B sends the text that B had stored all along. *)
Theorem readd_serves_orphaned_text self ctxA ctxC inv x (text kept : string) :
  x ≠ "" →
  has_permission self (author ctxA) = true →
  has_permission self (author ctxC) = true →
  guild inv ≠ guild ctxA →
  guild inv ≠ guild ctxC →
  GuildDatabase.value (db self) (guild inv) x = Some kept →
  ∃ self1 self2 out,
    remove self ctxA x = Ok self1
    ∧ Bot.all_commands (bot self1) !! x = None
    ∧ add self1 ctxC x text = Ok self2
    ∧ invoke self2 inv x = Ok out
    ∧ sends_one self2 out (channel inv) kept.
Proof.
  intros Hx HpermA HpermC HneA HneC Hkept.
  eexists. eexists. eexists.
  split; [by apply remove_permitted |].
  split; [simpl; apply lookup_delete_eq |].
  split; [by apply add_permitted |].
  split.
  { apply (invoke_registered _ _ _ text). simpl. apply lookup_insert_eq. }
  unfold sends_one. simpl.
  rewrite value_set_ne by congruence.
  rewrite value_clear_ne by congruence.
  by rewrite Hkept.
Qed.

Lemma readd_serves_orphaned_text_witness :
  has_permission Fixture.cog_x_in_both Fixture.owner = true
  ∧ GuildDatabase.value (db Fixture.cog_x_in_both) Fixture.guildB "x"
    = Some "t2"
  ∧ ∃ self1 self2 out,
      remove Fixture.cog_x_in_both
        (Fixture.in_guild Fixture.owner Fixture.guildA) "x" = Ok self1
      ∧ Bot.all_commands (bot self1) !! "x" = None
      ∧ add self1 (Fixture.in_guild Fixture.owner 3%N) "x" "t3" = Ok self2
      ∧ invoke self2 (Fixture.in_guild Fixture.visitor Fixture.guildB) "x"
        = Ok out
      ∧ sends_one self2 out 20%N "t2".
Proof.
  split; [reflexivity |]. split; [reflexivity |].
  apply (readd_serves_orphaned_text Fixture.cog_x_in_both
           (Fixture.in_guild Fixture.owner Fixture.guildA)
           (Fixture.in_guild Fixture.owner 3%N)
           (Fixture.in_guild Fixture.visitor Fixture.guildB)
           "x" "t3" "t2");
    [discriminate | reflexivity | reflexivity
     | discriminate | discriminate | reflexivity].
Defined.

(** A permitted [add] followed by a permitted [remove] of the same name,
    not empty, in the same guild leaves what [remove] alone leaves: the same command table
    and the same text under every guild and name.  Where the name was
    neither stored in the guild nor registered, that is the table and the
    texts from before the [add]. *)
Theorem add_then_remove self ctx ctx' name text :
  name ≠ "" →
  has_permission self (author ctx) = true →
  has_permission self (author ctx') = true →
  guild ctx' = guild ctx →
  ∃ self1 self2 removed,
    add self ctx name text = Ok self1
    ∧ remove self1 ctx' name = Ok self2
    ∧ remove self ctx' name = Ok removed
    ∧ Bot.all_commands (bot self2) = Bot.all_commands (bot removed)
    ∧ (∀ g n, GuildDatabase.value (db self2) g n
              = GuildDatabase.value (db removed) g n)
    ∧ (Bot.all_commands (bot self) !! name = None →
       Bot.all_commands (bot self2) = Bot.all_commands (bot self))
    ∧ (GuildDatabase.value (db self) (guild ctx) name = None →
       ∀ g n, GuildDatabase.value (db self2) g n
              = GuildDatabase.value (db self) g n).
Proof.
  intros Hname Hperm Hperm' Hguild.
  eexists. eexists. eexists.
  split; [by apply add_permitted |].
  split; [by apply remove_permitted |].
  split; [by apply remove_permitted |]. simpl.
  assert (Hvalues : ∀ g n,
             GuildDatabase.value
               (GuildDatabase.clear
                  (GuildDatabase.set (db self) (guild ctx) name text)
                  (guild ctx') name) g n
             = GuildDatabase.value
                 (GuildDatabase.clear (db self) (guild ctx') name) g n).
  { intros g n. rewrite Hguild.
    destruct (decide ((guild ctx, name) = (g, n))) as [[= <- <-] | Hne].
    - by rewrite !value_clear_eq.
    - rewrite !value_clear_ne by done. by apply value_set_ne. }
  split; [by rewrite delete_insert_eq, delete_delete_eq |].
  split; [exact Hvalues |].
  split.
  - intros Hfree. rewrite delete_insert_eq, delete_delete_eq.
    by apply delete_id.
  - intros Habsent g n. rewrite Hvalues, Hguild.
    by rewrite clear_absent.
Qed.

Lemma add_then_remove_witness :
  has_permission Fixture.cog0 Fixture.owner = true
  ∧ Bot.all_commands (bot Fixture.cog0) !! "x" = None
  ∧ GuildDatabase.value (db Fixture.cog0) Fixture.guildA "x" = None
  ∧ ∃ self1 self2,
      add Fixture.cog0 (Fixture.in_guild Fixture.owner Fixture.guildA)
        "x" "t1" = Ok self1
      ∧ remove self1 (Fixture.in_guild Fixture.owner Fixture.guildA) "x"
        = Ok self2
      ∧ Bot.all_commands (bot self2) = Bot.all_commands (bot Fixture.cog0)
      ∧ ∀ g n, GuildDatabase.value (db self2) g n
               = GuildDatabase.value (db Fixture.cog0) g n.
Proof.
  split; [reflexivity |]. split; [reflexivity |]. split; [reflexivity |].
  destruct (add_then_remove Fixture.cog0
              (Fixture.in_guild Fixture.owner Fixture.guildA)
              (Fixture.in_guild Fixture.owner Fixture.guildA)
              "x" "t1" ltac:(discriminate) eq_refl eq_refl eq_refl)
    as (self1 & self2 & removed & Hadd & Hrm & _ & _ & _ & Hcmds & Hvals).
  exists self1, self2. split; [exact Hadd |]. split; [exact Hrm |].
  split; [apply Hcmds | apply Hvals]; reflexivity.
Defined.

(** A second permitted [remove] of the same name in the same guild changes
    neither the store nor the command table; it sends the success notice
    again. *)
Theorem remove_twice self ctx ctx' name :
  has_permission self (author ctx) = true →
  has_permission self (author ctx') = true →
  guild ctx' = guild ctx →
  ∃ self1 self2,
    remove self ctx name = Ok self1
    ∧ remove self1 ctx' name = Ok self2
    ∧ db self2 = db self1
    ∧ Bot.all_commands (bot self2) = Bot.all_commands (bot self1)
    ∧ sends_one self1 self2 (channel ctx')
        ("removed command " ++ Bot.command_prefix (bot self) ++ name).
Proof.
  intros Hperm Hperm' Hguild.
  eexists. eexists.
  split; [by apply remove_permitted |].
  split; [by apply remove_permitted |]. simpl.
  split.
  { rewrite Hguild. apply clear_absent, value_clear_eq. }
  split; [apply delete_delete_eq | done].
Qed.

Lemma remove_twice_witness :
  has_permission Fixture.cog_x_in_A Fixture.owner = true
  ∧ ∃ self1 self2,
      remove Fixture.cog_x_in_A
        (Fixture.in_guild Fixture.owner Fixture.guildA) "x" = Ok self1
      ∧ remove self1 (Fixture.in_guild Fixture.owner Fixture.guildA) "x"
        = Ok self2
      ∧ db self2 = db self1
      ∧ Bot.all_commands (bot self2) = Bot.all_commands (bot self1)
      ∧ sends_one self1 self2 10%N "removed command ?x".
Proof.
  split; [reflexivity |].
  apply (remove_twice Fixture.cog_x_in_A
           (Fixture.in_guild Fixture.owner Fixture.guildA)
           (Fixture.in_guild Fixture.owner Fixture.guildA) "x");
    reflexivity.
Defined.

End RemoveEffect.

(** ** Startup: which stores it accepts, and what it installs *)

Section StartupEffect.
Implicit Types (b : Bot.t) (entries : list (string * string)).
Implicit Types (tables : gmap Guild (gmap string string)).

Lemma value_Some tables (g : Guild) (n text : string) :
  GuildDatabase.value tables g n = Some text
  ↔ ∃ tbl, tables !! g = Some tbl ∧ tbl !! n = Some text.
Proof.
  unfold GuildDatabase.value. split.
  - destruct (tables !! g) as [tbl |]; simpl; [| done]. intros Hn. by exists tbl.
  - intros (tbl & -> & Hn). done.
Qed.

Lemma elem_of_startup_entries tables (n text : string) :
  (n, text) ∈ startup_entries tables
  ↔ ∃ g, GuildDatabase.value tables g n = Some text.
Proof.
  unfold startup_entries. rewrite list_elem_of_bind. split.
  - intros (tbl & Hn & Htbl).
    apply list_elem_of_fmap in Htbl as ([g tbl'] & -> & Hg). simpl in Hn.
    apply elem_of_map_to_list in Hg, Hn.
    exists g. apply value_Some. by exists tbl'.
  - intros (g & (tbl & Hg & Hn)%value_Some). exists tbl.
    split; [by apply elem_of_map_to_list |].
    apply list_elem_of_fmap. exists (g, tbl).
    split; [done | by apply elem_of_map_to_list].
Qed.

Lemma elem_of_stored_names tables (n : string) :
  n ∈ (startup_entries tables).*1
  ↔ ∃ g, is_Some (GuildDatabase.value tables g n).
Proof.
  rewrite list_elem_of_fmap. split.
  - intros ([n' text] & -> & Hin). simpl.
    apply elem_of_startup_entries in Hin as (g & Hg). exists g. by exists text.
  - intros (g & text & Hg). exists (n, text).
    split; [done |]. apply elem_of_startup_entries. by exists g.
Qed.

Lemma stored_names_bind tables :
  (startup_entries tables).*1
  = map_to_list tables ≫= λ p, (map_to_list p.2).*1.
Proof.
  unfold startup_entries.
  induction (map_to_list tables) as [| p l IH]; [done |].
  rewrite fmap_cons, !bind_cons, fmap_app. by rewrite IH.
Qed.

Lemma NoDup_stored_names tables :
  NoDup (startup_entries tables).*1 ↔ one_guild_per_name tables.
Proof.
  split.
  - intros Hnd g1 g2 n Hne [text1 H1].
    destruct (GuildDatabase.value tables g2 n) as [text2 |] eqn:H2; [| done].
    apply value_Some in H1 as (tbl1 & Hg1 & Hn1).
    apply value_Some in H2 as (tbl2 & Hg2 & Hn2).
    destruct (shared_name_twice tables g1 g2 tbl1 tbl2 n); by eauto.
  - intros Hone. rewrite stored_names_bind. apply NoDup_bind.
    + intros [g1 tbl1] [g2 tbl2] n Hg1 Hg2 Hn1 Hn2. simpl in *.
      apply elem_of_map_to_list in Hg1, Hg2.
      apply list_elem_of_fmap in Hn1 as ([n1 text1] & -> & Hn1).
      apply list_elem_of_fmap in Hn2 as ([n2 text2] & Heq & Hn2).
      simpl in Heq. subst n2. simpl in *.
      apply elem_of_map_to_list in Hn1, Hn2.
      destruct (decide (g1 = g2)) as [<- | Hne]; [congruence |].
      assert (GuildDatabase.value tables g2 n1 = None) as Habs.
      { apply (Hone g1 g2 n1 Hne). exists text1.
        apply value_Some. by exists tbl1. }
      assert (GuildDatabase.value tables g2 n1 = Some text2) as Hpres
        by (apply value_Some; by exists tbl2).
      congruence.
    + intros [g tbl] _. apply NoDup_fst_map_to_list.
    + apply NoDup_map_to_list.
Qed.

Lemma stored_names_free b tables :
  (∀ n, n ∈ (startup_entries tables).*1 → Bot.all_commands b !! n = None)
  ↔ names_free b tables.
Proof.
  unfold names_free. split.
  - intros Hfree g n Hn. apply Hfree, elem_of_stored_names. by exists g.
  - intros Hfree n (g & Hn)%elem_of_stored_names. by apply (Hfree g).
Qed.

(** What registration installs: every entry's handler under the name it
    is registered with, and nothing else changes. *)
Lemma register_entries_lookup entries b b' :
  for_each register_entry entries b = Ok b' →
  (∀ n text, (n, text) ∈ entries →
     Bot.all_commands b' !! command_name n = Some (make_command n text))
  ∧ (∀ n, n ∉ command_name <$> entries.*1 →
       Bot.all_commands b' !! n = Bot.all_commands b !! n)
  ∧ Bot.sent b' = Bot.sent b
  ∧ Bot.command_prefix b' = Bot.command_prefix b
  ∧ Bot.bot_admins b' = Bot.bot_admins b.
Proof.
  revert b. induction entries as [| [m text0] entries IH]; intros b.
  - intros [= <-]. split; [| done].
    intros n text Hin. by apply elem_of_nil in Hin.
  - rewrite !fmap_cons, for_each_cons, register_entry_unfold. cbn [fst].
    destruct (Bot.all_commands b !! command_name m) eqn:Hm; simpl; [done |].
    intros Hrest.
    pose proof (register_entries_Ok _ _ _ Hrest) as (_ & Hfresh & _).
    apply IH in Hrest as (Hin & Hout & Hsent & Hprefix & Hadmins).
    simpl in Hfresh, Hout, Hsent, Hprefix, Hadmins.
    assert (Hnotin : command_name m ∉ command_name <$> entries.*1).
    { intros Hmem. apply Hfresh in Hmem.
      by rewrite lookup_insert_eq in Hmem. }
    split; [| split; [| done]].
    + intros n text [[= -> ->] | Htail]%elem_of_cons.
      * rewrite Hout by done. apply lookup_insert_eq.
      * by apply Hin.
    + intros n Hn. apply not_elem_of_cons in Hn as [Hne Hn].
      rewrite Hout by done. by rewrite lookup_insert_ne.
Qed.

Lemma startup_unfold bot0 tables (gap bap ep : bool) :
  __init__ bot0 tables gap bap ep
  = b ← for_each register_entry (startup_entries tables) bot0;
    Ok {| bot := b;
          guild_admin_permission := gap;
          bot_admin_permission := bap;
          everyone_permission := ep;
          db := tables |}.
Proof.
  unfold __init__, GuildDatabase.tables. by rewrite register_tables_flat.
Qed.

(** Startup either constructs the cog or raises for the name that a stored
    name is registered under. *)
Lemma startup_Raise bot0 tables (gap bap ep : bool) e :
  __init__ bot0 tables gap bap ep = Raise e →
  ∃ n, e = CommandRegistrationError n ∧ n ∈ startup_names tables.
Proof.
  rewrite startup_unfold.
  destruct (for_each register_entry _ bot0) as [b' | e'] eqn:Hreg; simpl;
    [done |].
  intros [= <-].
  apply register_entries_Raise in Hreg as (n & -> & Hn). by exists n.
Qed.

Lemma startup_Ok_inv bot0 tables (gap bap ep : bool) self :
  __init__ bot0 tables gap bap ep = Ok self →
  one_guild_per_name tables
  ∧ ∀ g n,
      is_Some (GuildDatabase.value tables g n) →
      Bot.all_commands bot0 !! command_name n = None.
Proof.
  rewrite startup_unfold.
  destruct (for_each register_entry _ bot0) as [b' |] eqn:Hreg; simpl;
    [| done].
  intros _. apply register_entries_Ok in Hreg as (Hnd & Hfresh & _).
  split; [by apply NoDup_stored_names, (NoDup_fmap_1 command_name) |].
  intros g n Hn. apply Hfresh, list_elem_of_fmap_2, elem_of_stored_names.
  by exists g.
Qed.

(** Where the empty name is not stored, the stored names are the
    registered ones. *)
Lemma startup_names_nonempty tables :
  names_nonempty tables →
  startup_names tables = (startup_entries tables).*1.
Proof.
  intros Hnonempty. apply command_names_nonempty.
  intros (g & Hg)%elem_of_stored_names.
  rewrite (Hnonempty g) in Hg. by destruct Hg.
Qed.

(** On a store that does not hold the empty name, [__init__] constructs
    the cog exactly when no name belongs to two guilds and no name is
    already registered in the bot; otherwise it raises. *)
Theorem startup_succeeds_iff bot0 tables (gap bap ep : bool) :
  names_nonempty tables →
  (∃ self, __init__ bot0 tables gap bap ep = Ok self)
  ↔ one_guild_per_name tables ∧ names_free bot0 tables.
Proof.
  intros Hnonempty. split.
  - intros [self Hinit]. apply startup_Ok_inv in Hinit as [Hone Hfree].
    split; [done |]. intros g n Hn.
    rewrite <- (command_name_nonempty n); [by apply (Hfree g) |].
    intros ->. rewrite (Hnonempty g) in Hn. by destruct Hn.
  - intros [Hone Hfree]. rewrite startup_unfold.
    destruct (register_entries_fresh (startup_entries tables) bot0)
      as [b' Hb'].
    + fold (startup_names tables). rewrite startup_names_nonempty by done.
      by apply NoDup_stored_names.
    + fold (startup_names tables). rewrite startup_names_nonempty by done.
      by apply stored_names_free.
    + rewrite Hb'. simpl. by eexists.
Qed.

Lemma startup_succeeds_iff_witness :
  names_nonempty Fixture.two_names
  ∧ ((∃ self,
        __init__ Fixture.bot0 Fixture.two_names true true false = Ok self)
     ↔ one_guild_per_name Fixture.two_names
       ∧ names_free Fixture.bot0 Fixture.two_names).
Proof.
  assert (Hnonempty : names_nonempty Fixture.two_names).
  { intros g. unfold GuildDatabase.value, Fixture.two_names.
    destruct (decide (g = Fixture.guildA)) as [-> | HA]; [reflexivity |].
    destruct (decide (g = Fixture.guildB)) as [-> | HB]; [reflexivity |].
    rewrite lookup_insert_ne by done. by rewrite lookup_singleton_ne. }
  split; [exact Hnonempty |].
  apply (startup_succeeds_iff Fixture.bot0 Fixture.two_names true true false).
  exact Hnonempty.
Defined.

Lemma startup_installs_distinct_names_witness :
  ∃ self,
    __init__ Fixture.bot0 Fixture.two_names true true false = Ok self
    ∧ db self = Fixture.two_names
    ∧ dom (Bot.all_commands (bot self)) = {[ "x"; "y" ]}
    ∧ size (Bot.all_commands (bot self)) = 2.
Proof.
  destruct (__init__ Fixture.bot0 Fixture.two_names true true false)
    as [self |] eqn:Hinit; [| by vm_compute in Hinit].
  exists self. split; [reflexivity |].
  destruct (startup_installs_distinct_names Fixture.bot0 Fixture.two_names
              true true false self Hinit) as (Hdb & Hdom & Hsize).
  split; [exact Hdb |].
  split; [rewrite Hdom; by vm_compute | rewrite Hsize; by vm_compute].
Defined.

(** The cog that startup constructs serves the store it was given: every
    text stored under a guild and a name that is not empty is sent when the
    name is invoked in that guild.  Startup itself sends no notice and keeps the store and the
    flags it was given. *)
Theorem restart_serves_stored_text bot0 tables (gap bap ep : bool) self
    ctx (n text : string) :
  n ≠ "" →
  __init__ bot0 tables gap bap ep = Ok self →
  GuildDatabase.value tables (guild ctx) n = Some text →
  (∃ out,
     invoke self ctx n = Ok out
     ∧ sends_one self out (channel ctx) text)
  ∧ Bot.sent (bot self) = Bot.sent bot0
  ∧ db self = tables
  ∧ guild_admin_permission self = gap
  ∧ bot_admin_permission self = bap
  ∧ everyone_permission self = ep.
Proof.
  intros Hn. rewrite startup_unfold.
  destruct (for_each register_entry _ bot0) as [b' |] eqn:Hreg; simpl;
    [| done].
  intros [= <-] Hstored. simpl.
  apply register_entries_lookup in Hreg as (Hin & _ & Hsent & _).
  split; [| done].
  eexists. split.
  - apply (invoke_registered _ _ _ text). simpl.
    rewrite <- (command_name_nonempty n Hn) at 1.
    apply Hin, elem_of_startup_entries. by exists (guild ctx).
  - unfold sends_one. simpl. by rewrite Hstored.
Qed.

Lemma restart_serves_stored_text_witness :
  ∃ self out,
    __init__ Fixture.bot0 Fixture.two_names true true false = Ok self
    ∧ invoke self (Fixture.in_guild Fixture.visitor Fixture.guildB) "y"
      = Ok out
    ∧ sends_one self out 20%N "t2"
    ∧ Bot.sent (bot self) = [].
Proof.
  destruct (__init__ Fixture.bot0 Fixture.two_names true true false)
    as [self |] eqn:Hinit; [| by vm_compute in Hinit].
  destruct (restart_serves_stored_text Fixture.bot0 Fixture.two_names
              true true false self
              (Fixture.in_guild Fixture.visitor Fixture.guildB) "y" "t2"
              ltac:(discriminate) Hinit eq_refl)
    as ((out & Hinv & Hsends) & Hsent & _).
  exists self, out. split; [reflexivity |]. split; [exact Hinv |].
  split; [exact Hsends | exact Hsent].
Defined.

(** A permitted [add] of a name that the bot already has a handler for
    goes through and stores the name; constructing the cog again on the bot
    as it was before the [add], with the store the [add] left, raises.  The
    command table is one the framework can hold: it has no handler under
    the empty name. *)
Theorem add_taken_name_breaks_restart self ctx name text (gap bap ep : bool) :
  Bot.all_commands (bot self) !! "" = None →
  is_Some (Bot.all_commands (bot self) !! name) →
  has_permission self (author ctx) = true →
  ∃ self',
    add self ctx name text = Ok self'
    ∧ ∃ n, __init__ (bot self) (db self') gap bap ep
           = Raise (CommandRegistrationError n).
Proof.
  intros Hempty [command Htaken] Hperm.
  assert (Hname : name ≠ "") by (intros ->; congruence).
  eexists. split; [by apply add_permitted |]. simpl.
  destruct (__init__ _ _ gap bap ep) as [again | e] eqn:Hinit.
  - apply startup_Ok_inv in Hinit as [_ Hfree].
    specialize (Hfree (guild ctx) name).
    rewrite (command_name_nonempty name Hname), Htaken in Hfree.
    discriminate Hfree. rewrite value_set_eq. by eexists.
  - apply startup_Raise in Hinit as (n & -> & _). by exists n.
Qed.

Lemma add_taken_name_breaks_restart_witness :
  Bot.all_commands (bot Fixture.cog_x_in_A) !! "" = None
  ∧ Bot.all_commands (bot Fixture.cog_x_in_A) !! "x"
    = Some (make_command "x" "t1")
  ∧ has_permission Fixture.cog_x_in_A Fixture.moderator = true
  ∧ ∃ self',
      add Fixture.cog_x_in_A
        (Fixture.in_guild Fixture.moderator Fixture.guildB) "x" "t2"
      = Ok self'
      ∧ ∃ n, __init__ (bot Fixture.cog_x_in_A) (db self') true true false
             = Raise (CommandRegistrationError n).
Proof.
  split; [reflexivity |]. split; [reflexivity |]. split; [reflexivity |].
  apply (add_taken_name_breaks_restart Fixture.cog_x_in_A
           (Fixture.in_guild Fixture.moderator Fixture.guildB) "x" "t2");
    [reflexivity | by eexists | reflexivity].
Defined.

(** Two permitted [add]s of one name, not empty, in two guilds leave a
    store on which
    [__init__] raises, on every bot and with every setting of the flags:
    the cog cannot be constructed again until one of the two is removed. *)
Theorem two_adds_break_restart self ctxA ctxB x (t1 t2 : string) bot0
    (gap bap ep : bool) :
  x ≠ "" →
  guild ctxA ≠ guild ctxB →
  has_permission self (author ctxA) = true →
  has_permission self (author ctxB) = true →
  ∃ self1 self2,
    add self ctxA x t1 = Ok self1
    ∧ add self1 ctxB x t2 = Ok self2
    ∧ ∃ n, __init__ bot0 (db self2) gap bap ep
           = Raise (CommandRegistrationError n).
Proof.
  intros Hx Hne HpermA HpermB.
  eexists. eexists.
  split; [by apply add_permitted |].
  split; [by apply add_permitted |]. simpl.
  destruct (__init__ _ _ gap bap ep) as [again | e] eqn:Hinit.
  - apply startup_Ok_inv in Hinit as [Hone _].
    specialize (Hone (guild ctxA) (guild ctxB) x Hne).
    rewrite value_set_eq in Hone.
    rewrite value_set_ne, value_set_eq in Hone by congruence.
    discriminate Hone. by eexists.
  - apply startup_Raise in Hinit as (n & -> & _). by exists n.
Qed.

Lemma two_adds_break_restart_witness :
  Fixture.guildA ≠ Fixture.guildB
  ∧ has_permission Fixture.cog0 Fixture.owner = true
  ∧ has_permission Fixture.cog0 Fixture.moderator = true
  ∧ ∃ self1 self2,
      add Fixture.cog0 (Fixture.in_guild Fixture.owner Fixture.guildA)
        "x" "t1" = Ok self1
      ∧ add self1 (Fixture.in_guild Fixture.moderator Fixture.guildB)
          "x" "t2" = Ok self2
      ∧ ∃ n, __init__ Fixture.bot0 (db self2) true true false
             = Raise (CommandRegistrationError n).
Proof.
  split; [discriminate |]. split; [reflexivity |]. split; [reflexivity |].
  apply (two_adds_break_restart Fixture.cog0
           (Fixture.in_guild Fixture.owner Fixture.guildA)
           (Fixture.in_guild Fixture.moderator Fixture.guildB)
           "x" "t1" "t2" Fixture.bot0 true true false);
    [discriminate | discriminate | reflexivity | reflexivity].
Defined.

End StartupEffect.

(** ** Sessions *)

Section Sessions.
Implicit Types (self : Commands.t) (r : request) (rs : list request).

Lemma handle_Ok self r self' :
  handle self r = Ok self' →
  same_settings self self'
  ∧ ∃ ch message, sends_one self self' ch message.
Proof.
  unfold same_settings, sends_one.
  destruct r as [ctx name text | ctx name | ctx name]; simpl.
  - unfold _add, add.
    destruct (has_permission self (author ctx)) eqn:Hperm; simpl.
    + destruct (Bot.add_command _ _) as [b |] eqn:Hadd; simpl; [| done].
      intros [= <-]. simpl. unfold Bot.add_command in Hadd. simpl in Hadd.
      destruct (delete name (Bot.all_commands (bot self)) !! command_name name);
        [done |].
      injection Hadd as <-. simpl. eauto 10.
    + intros [= <-]. simpl. eauto 10.
  - unfold _remove. destruct (has_permission self (author ctx)) eqn:Hperm.
    + rewrite remove_permitted by done. intros [= <-]. simpl. eauto 10.
    + unfold remove. rewrite Hperm. simpl. intros [= <-]. simpl. eauto 10.
  - unfold invoke.
    destruct (Bot.all_commands (bot self) !! name) as [command |].
    + intros [= <-]. unfold _command.
      destruct (_get_command self (guild ctx) _); simpl; eauto 10.
    + intros [= <-]. simpl. eauto 10.
Qed.

Lemma handle_Raise self r e :
  handle self r = Raise e →
  ∃ ctx text, r = Add ctx "" text ∧ e = CommandRegistrationError "_command".
Proof.
  destruct r as [ctx name text | ctx name | ctx name]; simpl.
  - unfold _add. destruct (decide (name = "")) as [-> | Hname].
    + unfold add.
      destruct (has_permission self (author ctx)); simpl; [| done].
      unfold Bot.add_command. simpl.
      destruct (delete "" (Bot.all_commands (bot self)) !! command_name "");
        simpl; [| done].
      intros [= <-]. by exists ctx, text.
    + destruct (has_permission self (author ctx)) eqn:Hperm.
      * by rewrite add_permitted.
      * unfold add. by rewrite Hperm.
  - unfold _remove, remove.
    by destruct (negb (has_permission self (author ctx))).
  - unfold invoke. by destruct (Bot.all_commands (bot self) !! name).
Qed.

(** A session faults only by adding the empty name: requests to add a name
    that is not empty and requests to remove never raise, whoever sends
    them and whatever the store and the command table hold, so registering
    such a name never fails once the cog is constructed. *)
Theorem serve_faults_only_on_empty_name rs self e :
  serve rs self = Raise e →
  ∃ ctx text,
    Add ctx "" text ∈ rs ∧ e = CommandRegistrationError "_command".
Proof.
  unfold serve. revert self.
  induction rs as [| r rs IH]; intros self; simpl; [done |].
  destruct (handle self r) as [self1 | e1] eqn:Hr; simpl.
  - intros (ctx & text & Hin & ->)%IH. exists ctx, text.
    split; [by apply list_elem_of_further | done].
  - intros [= <-]. apply handle_Raise in Hr as (ctx & text & -> & ->).
    exists ctx, text. split; [apply list_elem_of_here | done].
Qed.

Lemma serve_faults_only_on_empty_name_witness :
  serve
    [Add (Fixture.in_guild Fixture.owner Fixture.guildA) "x" "t0";
     Add (Fixture.in_guild Fixture.owner Fixture.guildA) "" "t1";
     Remove (Fixture.in_guild Fixture.owner Fixture.guildA) "";
     Add (Fixture.in_guild Fixture.moderator Fixture.guildB) "" "t2"]
    Fixture.cog0
  = Raise (CommandRegistrationError "_command")
  ∧ ∃ ctx text,
      Add ctx "" text
      ∈ [Add (Fixture.in_guild Fixture.owner Fixture.guildA) "x" "t0";
         Add (Fixture.in_guild Fixture.owner Fixture.guildA) "" "t1";
         Remove (Fixture.in_guild Fixture.owner Fixture.guildA) "";
         Add (Fixture.in_guild Fixture.moderator Fixture.guildB) "" "t2"]
      ∧ CommandRegistrationError "_command"
        = CommandRegistrationError "_command".
Proof.
  split; [reflexivity |].
  apply (serve_faults_only_on_empty_name _ Fixture.cog0). reflexivity.
Defined.

(** A session that runs to its end has sent one notice per request, and
    changes nobody's permission: the flags, the prefix and the bot-level
    administrators are as at its start. *)
Theorem serve_one_notice_per_request rs self self' :
  serve rs self = Ok self' →
  length (Bot.sent (bot self')) = length (Bot.sent (bot self)) + length rs
  ∧ same_settings self self'
  ∧ ∀ member, has_permission self' member = has_permission self member.
Proof.
  unfold serve. revert self.
  induction rs as [| r rs IH]; intros self; simpl.
  - intros [= <-]. split; [lia |]. by unfold same_settings.
  - destruct (handle self r) as [self1 |] eqn:Hr; simpl; [| done].
    intros (Hlen & Hsame & Hperm)%IH.
    apply handle_Ok in Hr as (Hsame1 & ch & message & Hsent).
    rewrite Hlen, Hsent, length_app. simpl.
    split; [lia |].
    unfold same_settings in *.
    destruct Hsame as (Ha & Hp & Hg & Hb & He).
    destruct Hsame1 as (Ha1 & Hp1 & Hg1 & Hb1 & He1).
    split; [repeat split; congruence |].
    intros member. rewrite Hperm.
    unfold has_permission, Bot.is_bot_admin. by rewrite He1, Ha1.
Qed.

Lemma serve_one_notice_per_request_witness :
  ∃ self',
    serve
      [Add (Fixture.in_guild Fixture.visitor Fixture.guildA) "x" "t0";
       Add (Fixture.in_guild Fixture.owner Fixture.guildA) "x" "t1";
       Invoke (Fixture.in_guild Fixture.visitor Fixture.guildB) "x";
       Remove (Fixture.in_guild Fixture.moderator Fixture.guildA) "x"]
      Fixture.cog0 = Ok self'
    ∧ length (Bot.sent (bot self')) = 4
    ∧ has_permission self' Fixture.visitor = false.
Proof.
  destruct (serve
              [Add (Fixture.in_guild Fixture.visitor Fixture.guildA) "x" "t0";
               Add (Fixture.in_guild Fixture.owner Fixture.guildA) "x" "t1";
               Invoke (Fixture.in_guild Fixture.visitor Fixture.guildB) "x";
               Remove (Fixture.in_guild Fixture.moderator Fixture.guildA) "x"]
              Fixture.cog0) as [self' |] eqn:Hserve;
    [| by vm_compute in Hserve].
  exists self'. split; [reflexivity |].
  destruct (serve_one_notice_per_request _ _ _ Hserve) as (Hlen & _ & Hperm).
  split; [exact Hlen | exact (Hperm Fixture.visitor)].
Defined.

End Sessions.

(** ** A name added in one guild, invoked in another *)

Section AcrossGuilds.
Implicit Types (self : Commands.t) (ctx : Context) (name text : string).



End AcrossGuilds.
